(** * observability_utils.tracing.asserting_exporter

    A shallow embedding of [JsonObjectSpanExporter] and of the context
    manager [asserting_span_exporter], together with the properties of the
    capture cell [top_span] that the specification states.

    Python objects are modelled as follows.
    - A span is an object of the tracing SDK.  Spans live in a store that
      maps object identities to their contents; sequences of spans and the
      result of a future hold identities, as Python references do.
    - The exporter under test is one object whose attributes are the fields
      of a record.  A method is a computation over the store and the
      exporter that either returns a value or raises, and that keeps every
      mutation made before the raise. *)

From Stdlib Require Import ZArith.
From stdpp Require Import base option list strings gmap.

Local Open Scope Z_scope.

(** ** Values, exceptions and results *)

(** The exceptions that the modelled code can raise. *)
Inductive exn : Type :=
  | IndexError         (* [spans[-1]] on an empty sequence *)
  | AssertionError     (* a failed [assert] *)
  | TimeoutError       (* [Future.result(timeout)] ran out of time *)
  | InvalidStateError  (* [Future.set_result] on a completed future *)
  | AttributeError.    (* a method looked up on [None] *)

Inductive outcome (A : Type) : Type :=
  | Returns (a : A)
  | Raises (e : exn).
Arguments Returns {A} a.
Arguments Raises {A} e.

(** [opentelemetry.sdk.trace.export.SpanExportResult] *)
Inductive SpanExportResult : Type := SUCCESS | FAILURE.

(** Modelled from the spec: the attribute values of the tracing SDK, which
    is not part of the repository ("string keys to scalar values").  A float
    is kept as the bits of its IEEE-754 double. *)
Inductive AttributeValue : Type :=
  | AttrStr (s : string)
  | AttrBool (b : bool)
  | AttrInt (i : Z)
  | AttrFloat (bits : Z).

(** Modelled from the spec: [ReadableSpan] of the tracing SDK, which is not
    part of the repository.  The code reads [name] and [attributes] only. *)
Record ReadableSpan : Type := {
  name : string;
  attributes : gmap string AttributeValue
}.

(** Identity of a span object. *)
Definition span_ref : Type := positive.

(** [concurrent.futures.Future], as far as the code uses it: created
    pending, completed once by [set_result], read by [done] and [result]. *)
Inductive Future (A : Type) : Type :=
  | PENDING
  | FINISHED (result : A).
Arguments PENDING {A}.
Arguments FINISHED {A} result.

(** ** The exporter object and the state of a run *)

Record JsonObjectSpanExporter : Type := {
  service_name : option string;
  top_span : option (Future span_ref)
}.

Record World : Type := {
  spans_store : span_ref → ReadableSpan;
  exporter : JsonObjectSpanExporter
}.

(** ** Computations: state and exceptions *)

Definition M (A : Type) : Type := World → outcome A * World.

#[global] Instance M_ret : MRet M := λ A a w, (Returns a, w).

Definition raise {A} (e : exn) : M A := λ w, (Raises e, w).

#[global] Instance M_bind : MBind M := λ A B k m w,
  match m w with
  | (Returns a, w') => k a w'
  | (Raises e, w') => (Raises e, w')
  end.

Definition lift {A} (o : outcome A) : M A :=
  match o with
  | Returns a => mret a
  | Raises e => raise e
  end.

(** [self.top_span] *)
Definition get_top_span : M (option (Future span_ref)) :=
  λ w, (Returns (top_span (exporter w)), w).

(** The state in which the exporter's [top_span] is [v] and all else is as
    in [w]. *)
Definition put_top_span (v : option (Future span_ref)) (w : World) : World :=
  {| spans_store := spans_store w;
     exporter := {| service_name := service_name (exporter w);
                    top_span := v |} |}.

(** [self.top_span = v] *)
Definition set_top_span (v : option (Future span_ref)) : M unit :=
  λ w, (Returns tt, put_top_span v w).

(** [span.name] *)
Definition get_name (span : span_ref) : M string :=
  λ w, (Returns (name (spans_store w span)), w).

(** [span.attributes] *)
Definition get_attributes (span : span_ref) : M (gmap string AttributeValue) :=
  λ w, (Returns (attributes (spans_store w span)), w).

(** [assert b] *)
Definition assert (b : bool) : M unit :=
  if b then mret tt else raise AssertionError.

(** [for x in xs: body x] *)
Fixpoint for_in {A} (xs : list A) (body : A → M unit) : M unit :=
  match xs with
  | [] => mret tt
  | x :: xs' => body x;; for_in xs' body
  end.

(** [xs[-1]] *)
Definition getitem_last {A} (xs : list A) : M A :=
  match last xs with
  | Some x => mret x
  | None => raise IndexError
  end.

(** ** [concurrent.futures.Future] methods *)

(** [Future()] *)
Definition Future_new {A} : Future A := PENDING.

(** [f.done()] *)
Definition Future_done {A} (f : Future A) : bool :=
  match f with
  | PENDING => false
  | FINISHED _ => true
  end.

(** [f.set_result(r)]: the future after the call. *)
Definition Future_set_result {A} (f : Future A) (r : A) : outcome (Future A) :=
  match f with
  | PENDING => Returns (FINISHED r)
  | FINISHED _ => Raises InvalidStateError
  end.

(** [f.result(timeout)].  The run is sequential: while the caller waits no
    other call can complete the future, so the wait on a pending future
    always runs out. *)
Definition Future_result {A} (f : Future A) (timeout : Z) : outcome A :=
  match f with
  | FINISHED r => Returns r
  | PENDING => Raises TimeoutError
  end.

(** ** [JsonObjectSpanExporter] *)

Definition default_service_name : option string := Some "Test"%string.

Definition __init__ {IO : Type} (service_name : option string)
    (out : option IO) (formatter : option (ReadableSpan → string))
    : JsonObjectSpanExporter :=
  {| service_name := service_name; top_span := None |}.

(** [self.top_span is None or self.top_span.done()] *)
Definition none_or_done (top : option (Future span_ref)) : bool :=
  match top with
  | None => true
  | Some f => Future_done f
  end.

Definition export (spans : list span_ref) : M SpanExportResult :=
  top ← get_top_span;
  (if none_or_done top then
     set_top_span (Some Future_new);;
     top' ← get_top_span;
     match top' with
     | None => raise AttributeError
     | Some f =>
         x ← getitem_last spans;
         f' ← lift (Future_set_result f x);
         set_top_span (Some f')
     end
   else mret tt);;
  mret SUCCESS.

Definition default_timeout_millis : Z := 30000.

Definition force_flush (timeout_millis : Z) : M bool := mret true.

(** ** The context manager [asserting_span_exporter] *)

(** The code after [yield]. *)
Definition asserting_span_exporter_exit (func_name : string)
    (span_args : list string) : M unit :=
  top ← get_top_span;
  match top with
  | None => mret tt
  | Some f =>
      span ← lift (Future_result f 5);
      n ← get_name span;
      assert (bool_decide (n = func_name));;
      for_in span_args (λ param,
        attrs ← get_attributes span;
        assert (bool_decide (param ∈ dom attrs)))
  end.

(** [with asserting_span_exporter(exporter, func_name, *span_args): body].
    The argument [exporter] is the exporter of the state.  An exception of
    the body is thrown into the generator at [yield] and leaves the block;
    the code after [yield] is then not run. *)
Definition asserting_span_exporter {A} (func_name : string)
    (span_args : list string) (body : M A) : M unit :=
  body;; asserting_span_exporter_exit func_name span_args.

(** ** Runs of calls on one exporter *)

(** A call made by a test or by the tracing pipeline.  [CallAsserting] is
    the [with] block with an empty body: a body made of calls is the same
    calls placed before it. *)
Inductive call : Type :=
  | CallExport (spans : list span_ref)
  | CallForceFlush (timeout_millis : Z)
  | CallAsserting (func_name : string) (span_args : list string).

(** What a call returns. *)
Inductive value : Type :=
  | VResult (r : SpanExportResult)
  | VBool (b : bool)
  | VNone.

Definition run_call (c : call) : M value :=
  match c with
  | CallExport spans => r ← export spans; mret (VResult r)
  | CallForceFlush t => b ← force_flush t; mret (VBool b)
  | CallAsserting func_name span_args =>
      asserting_span_exporter func_name span_args (mret tt);; mret VNone
  end.

(** The calls are made in order; the caller catches what a call raises and
    goes on with the next one. *)
Fixpoint run_calls (cs : list call) (w : World) : list (outcome value) * World :=
  match cs with
  | [] => ([], w)
  | c :: cs' =>
      let '(o, w') := run_call c w in
      let '(os, w'') := run_calls cs' w' in
      (o :: os, w'')
  end.

(** The exporter contract: a batch of finished spans is not empty. *)
Definition nonempty_batch (c : call) : Prop :=
  match c with
  | CallExport spans => spans ≠ []
  | _ => True
  end.

(** The capture cell. *)
Definition cell (w : World) : option (Future span_ref) := top_span (exporter w).

(** A stored future is completed. *)
Definition cell_completed (w : World) : Prop :=
  ∀ f, cell w = Some f → Future_done f = true.

(** Every expected key is a key of the span's attributes. *)
Definition has_keys (span : ReadableSpan) (span_args : list string) : bool :=
  forallb (λ param, bool_decide (param ∈ dom (attributes span))) span_args.

(** The policy in the words of the specification: of two consecutive
    exports, the second leaves the capture of the first in place. *)
Definition second_export_keeps_first (w : World)
    (batch1 batch2 : list span_ref) : Prop :=
  ∀ x, last batch1 = Some x →
    cell (export batch2 (export batch1 w).2).2 = Some (FINISHED x).

(** What a call returns or raises while the cell holds a pending future. *)
Definition pending_outcome (c : call) : outcome value :=
  match c with
  | CallExport _ => Returns (VResult SUCCESS)
  | CallForceFlush _ => Returns (VBool true)
  | CallAsserting _ _ => Raises TimeoutError
  end.

(** ** Sample data *)

Definition span_first : ReadableSpan :=
  {| name := "first"; attributes := {[ "x"%string := AttrInt 1 ]} |}.

Definition span_second : ReadableSpan :=
  {| name := "second"; attributes := {[ "y"%string := AttrInt 2 ]} |}.

Definition sample_store (r : span_ref) : ReadableSpan :=
  if decide (r = 1%positive) then span_first else span_second.

(** A freshly constructed exporter, with the spans above at identities 1
    and 2. *)
Definition fresh_world : World :=
  {| spans_store := sample_store;
     exporter := __init__ default_service_name (@None unit) None |}.

(** * observability_utils.tracing.helpers

    The helpers configure the tracing SDK and the web framework.  What they
    do is the calls they make, so a helper is a computation over the log of
    the calls made so far; an object of the SDK is named by the expression
    that constructs it. *)

(** A Python value given as an argument. *)
Inductive pyvalue : Type :=
  | PyNone
  | PyStr (s : string)
  | PyInt (i : Z)
  | PyBool (b : bool).

(** Identity of a [FastAPI] application object. *)
Definition FastAPI : Type := positive.

Inductive sdk_object : Type :=
  | Resource (attributes : gmap string pyvalue)
  | TracerProvider (resource : sdk_object)
  | OTLPSpanExporter
  | BatchSpanProcessor (span_exporter : sdk_object)
  | FastAPIInstrumentor.

(** The calls that act on the SDK or on the framework. *)
Inductive sdk_call : Type :=
  | add_span_processor (provider span_processor : sdk_object)
  | set_tracer_provider (tracer_provider : sdk_object)
  | instrument_app (instrumentor : sdk_object) (app : FastAPI).

(** What the helpers and the function they are given can raise. *)
Inductive pyexn : Type :=
  | KeyError (key : string)
  | PyException (class_name : string).

Inductive sdk_outcome (A : Type) : Type :=
  | Done (a : A)
  | Failed (e : pyexn).
Arguments Done {A} a.
Arguments Failed {A} e.

Definition Sdk (A : Type) : Type := list sdk_call → sdk_outcome A * list sdk_call.

#[global] Instance Sdk_ret : MRet Sdk := λ A a log, (Done a, log).

#[global] Instance Sdk_bind : MBind Sdk := λ A B k m log,
  match m log with
  | (Done a, log') => k a log'
  | (Failed e, log') => (Failed e, log')
  end.

(** A call is made: it is added to the log. *)
Definition emit (c : sdk_call) : Sdk unit := λ log, (Done tt, log ++ [c]).

(** [d[key]] *)
Definition getitem (d : gmap string pyvalue) (key : string) : Sdk pyvalue :=
  λ log, match d !! key with
         | Some v => (Done v, log)
         | None => (Failed (KeyError key), log)
         end.

Definition setup_tracing (name : pyvalue) : Sdk unit :=
  let resource := Resource {[ "service.name"%string := name ]} in
  let provider := TracerProvider resource in
  emit (add_span_processor provider (BatchSpanProcessor OTLPSpanExporter));;
  emit (set_tracer_provider provider).

(** [name] defaults to [None]. *)
Definition instrument_fastapi_app (app : FastAPI) (name : pyvalue) : Sdk unit :=
  match name with
  | PyNone => mret tt
  | _ => setup_tracing name
  end;;
  emit (instrument_app FastAPIInstrumentor app).

(** [init_tracing], called with positional arguments [args] and keyword
    arguments [kwargs], returns the closure [inner]; applied to [func], as
    a decorator is, it runs [func] and returns [None]. *)
Definition init_tracing {R : Type} (args : list pyvalue)
    (kwargs : gmap string pyvalue) : Sdk R → Sdk pyvalue :=
  λ func,
    name ← getitem kwargs "name";
    setup_tracing name;;
    func;;
    mret PyNone.

(** The calls by which [setup_tracing] registers a provider for [name]. *)
Definition tracing_calls (name : pyvalue) : list sdk_call :=
  let provider := TracerProvider (Resource {[ "service.name"%string := name ]}) in
  [add_span_processor provider (BatchSpanProcessor OTLPSpanExporter);
   set_tracer_provider provider].

(** Sample data: a function under the decorator that instruments an
    application and returns. *)
Definition sample_func : Sdk pyvalue :=
  instrument_fastapi_app 1%positive PyNone;; mret (PyInt 0).

Definition sample_kwargs : gmap string pyvalue :=
  {[ "name"%string := PyStr "app"; "debug"%string := PyBool true ]}.

(** ** How the operations act on the state *)

Section Equations.

Implicit Types (w : World) (spans : list span_ref) (x r : span_ref).

Lemma put_top_span_twice v v' w :
  put_top_span v (put_top_span v' w) = put_top_span v w.
Proof. reflexivity. Qed.

Lemma cell_put_top_span v w : cell (put_top_span v w) = v.
Proof. reflexivity. Qed.

Lemma none_or_done_cases (top : option (Future span_ref)) :
  none_or_done top = true ↔ top = None ∨ ∃ r, top = Some (FINISHED r).
Proof.
  split.
  - destruct top as [[|r]|]; cbn; intros H; try discriminate; eauto.
  - intros [->|[r ->]]; reflexivity.
Qed.

Lemma none_or_done_pending (top : option (Future span_ref)) :
  none_or_done top = false ↔ top = Some PENDING.
Proof.
  destruct top as [[|r]|]; cbn; split; intros H; congruence.
Qed.

(** The guard holds and the batch has a last element: the cell is
    replaced by a completed future holding that element. *)
Lemma export_stores spans w x :
  none_or_done (cell w) = true → last spans = Some x →
  export spans w = (Returns SUCCESS, put_top_span (Some (FINISHED x)) w).
Proof.
  intros Hg Hl. unfold cell in Hg.
  cbv [export mbind M_bind get_top_span set_top_span getitem_last].
  rewrite Hg. cbn. rewrite Hl. reflexivity.
Qed.

(** The guard holds and the batch is empty: the fresh future is already
    in the cell when [spans[-1]] raises. *)
Lemma export_empty w :
  none_or_done (cell w) = true →
  export [] w = (Raises IndexError, put_top_span (Some PENDING) w).
Proof.
  intros Hg. unfold cell in Hg.
  cbv [export mbind M_bind get_top_span set_top_span getitem_last].
  rewrite Hg. reflexivity.
Qed.

(** The guard fails: nothing is done. *)
Lemma export_skips spans w :
  none_or_done (cell w) = false →
  export spans w = (Returns SUCCESS, w).
Proof.
  intros Hg. unfold cell in Hg.
  cbv [export mbind M_bind get_top_span].
  rewrite Hg. reflexivity.
Qed.

Lemma last_nonempty {A} (l : list A) : l ≠ [] → ∃ a, last l = Some a.
Proof.
  intros Hne. destruct (last l) as [a|] eqn:E; [eauto|].
  apply last_None in E. contradiction.
Qed.

(** The loop over the expected keys never touches the state, and fails at
    the first key that the span lacks. *)
Lemma for_in_keys span span_args w :
  for_in span_args (λ param,
      attrs ← get_attributes span;
      assert (bool_decide (param ∈ dom attrs))) w
  = (if has_keys (spans_store w span) span_args
     then Returns tt else Raises AssertionError, w).
Proof.
  induction span_args as [|param rest IH]; [reflexivity|].
  cbn [for_in has_keys forallb].
  cbv [mbind M_bind get_attributes] in IH |- *.
  destruct (bool_decide (param ∈ dom (attributes (spans_store w span)))); cbn.
  - exact IH.
  - reflexivity.
Qed.

(** The code after [yield], case by case. *)
Lemma exit_none func_name span_args w :
  cell w = None →
  asserting_span_exporter_exit func_name span_args w = (Returns tt, w).
Proof.
  intros Hc. unfold cell in Hc.
  cbv [asserting_span_exporter_exit mbind M_bind get_top_span].
  rewrite Hc. reflexivity.
Qed.

Lemma exit_pending func_name span_args w :
  cell w = Some PENDING →
  asserting_span_exporter_exit func_name span_args w = (Raises TimeoutError, w).
Proof.
  intros Hc. unfold cell in Hc.
  cbv [asserting_span_exporter_exit mbind M_bind get_top_span].
  rewrite Hc. reflexivity.
Qed.

Lemma exit_finished func_name span_args w r :
  cell w = Some (FINISHED r) →
  asserting_span_exporter_exit func_name span_args w
  = (if bool_decide (name (spans_store w r) = func_name)
        && has_keys (spans_store w r) span_args
     then Returns tt else Raises AssertionError, w).
Proof.
  intros Hc. unfold cell in Hc.
  unfold asserting_span_exporter_exit.
  cbv [mbind M_bind get_top_span]. rewrite Hc.
  cbv [lift Future_result mret M_ret get_name assert raise].
  destruct (bool_decide (name (spans_store w r) = func_name)); cbn [andb].
  - apply for_in_keys.
  - reflexivity.
Qed.

(** The helper reads the state and never writes it. *)
Lemma exit_state func_name span_args w :
  (asserting_span_exporter_exit func_name span_args w).2 = w.
Proof.
  destruct (cell w) as [[|r]|] eqn:Hc.
  - by rewrite exit_pending.
  - by rewrite (exit_finished _ _ _ r).
  - by rewrite exit_none.
Qed.

Lemma has_keys_spec span span_args :
  has_keys span span_args = true ↔
  ∀ param, param ∈ span_args → param ∈ dom (attributes span).
Proof.
  unfold has_keys. rewrite forallb_forall. split.
  - intros H param Hin. apply list_elem_of_In in Hin.
    specialize (H param Hin). by apply bool_decide_eq_true in H.
  - intros H param Hin. apply bool_decide_eq_true, H.
    by apply list_elem_of_In.
Qed.

Lemma has_keys_missing span span_args :
  has_keys span span_args = false ↔
  ∃ param, param ∈ span_args ∧ param ∉ dom (attributes span).
Proof.
  unfold has_keys. induction span_args as [|p rest IH]; cbn [forallb].
  - split; [discriminate|]. intros (param & Hin & _). by apply elem_of_nil in Hin.
  - rewrite andb_false_iff, IH, bool_decide_eq_false. split.
    + intros [Hp|(param & Hin & Hn)].
      * exists p. split; [left|done].
      * exists param. split; [by right|done].
    + intros (param & Hin & Hn). apply elem_of_cons in Hin as [->|Hin].
      * by left.
      * right. eauto.
Qed.

End Equations.

(** ** The [with] block *)

Section WithBlock.

Context {A : Type}.
Implicit Types (body : M A) (w : World).

(** The body returns: the code after [yield] runs in the state that the
    body left. *)
Lemma with_body_returns func_name span_args body w0 a w :
  body w0 = (Returns a, w) →
  asserting_span_exporter func_name span_args body w0
  = asserting_span_exporter_exit func_name span_args w.
Proof.
  intros Hb. cbv [asserting_span_exporter mbind M_bind]. by rewrite Hb.
Qed.

(** The body raises: the exception leaves the block. *)
Lemma with_body_raises func_name span_args body w0 e w :
  body w0 = (Raises e, w) →
  asserting_span_exporter func_name span_args body w0 = (Raises e, w).
Proof.
  intros Hb. cbv [asserting_span_exporter mbind M_bind]. by rewrite Hb.
Qed.

End WithBlock.

(** ** One call of a run *)

Lemma cell_completed_put x w :
  cell_completed (put_top_span (Some (FINISHED x)) w).
Proof. intros f Hf. rewrite cell_put_top_span in Hf. by simplify_eq. Qed.

Lemma cell_completed_guard w :
  cell_completed w ↔ none_or_done (cell w) = true.
Proof.
  unfold cell_completed. destruct (cell w) as [f|]; cbn.
  - split; [intros H; by apply H | intros H f' ?; by simplify_eq].
  - split; [done | intros _ f' ?; discriminate].
Qed.

Lemma run_call_export spans w :
  run_call (CallExport spans) w
  = match export spans w with
    | (Returns r, w') => (Returns (VResult r), w')
    | (Raises e, w') => (Raises e, w')
    end.
Proof. reflexivity. Qed.

Lemma run_call_force_flush t w :
  run_call (CallForceFlush t) w = (Returns (VBool true), w).
Proof. reflexivity. Qed.

Lemma run_call_asserting func_name span_args w :
  run_call (CallAsserting func_name span_args) w
  = match asserting_span_exporter_exit func_name span_args w with
    | (Returns _, w') => (Returns VNone, w')
    | (Raises e, w') => (Raises e, w')
    end.
Proof. reflexivity. Qed.

(** A call on a non-empty batch keeps every stored future completed and
    does not run out of time. *)
Lemma run_call_completed c w :
  nonempty_batch c → cell_completed w →
  cell_completed (run_call c w).2 ∧ (run_call c w).1 ≠ Raises TimeoutError.
Proof.
  intros Hne Hinv. destruct c as [spans|t|func_name span_args].
  - cbn in Hne. destruct (last_nonempty spans Hne) as [x Hl].
    apply cell_completed_guard in Hinv.
    rewrite run_call_export, (export_stores spans w x Hinv Hl). cbn [fst snd].
    split; [apply cell_completed_put | discriminate].
  - rewrite run_call_force_flush. split; [done | discriminate].
  - rewrite run_call_asserting.
    destruct (cell w) as [[|r]|] eqn:Hc.
    + apply cell_completed_guard in Hinv. rewrite Hc in Hinv. discriminate.
    + rewrite (exit_finished _ _ _ r Hc).
      destruct (_ && _); (split; [done | discriminate]).
    + rewrite (exit_none _ _ _ Hc). split; [done | discriminate].
Qed.

(** ** The export policy *)

(** C1, as stated, fails: on a fresh exporter, after exporting the span at
    identity 1 and then the span at identity 2, with no assertion helper in
    between, the cell does not hold the first span any more. *)
Lemma second_export_keeps_first_fails :
  ¬ second_export_keeps_first fresh_world [1%positive] [2%positive].
Proof.
  intros H. specialize (H 1%positive eq_refl). vm_compute in H. discriminate.
Qed.

(** C1, amended: of two consecutive exports of non-empty batches, where the
    first one stores its result (the cell is empty or completed before it),
    the second one overwrites the cell, which then holds a completed result
    equal to the last span of the second batch.  A read of the result by the
    assertion helper in between changes nothing: the helper leaves the state,
    the cell included, as the first export left it, whatever name and keys
    it expects, and the second export overwrites the cell all the same. *)
Theorem second_export_overwrites (w : World) (batch1 batch2 : list span_ref)
    (func_name : string) (span_args : list string) :
  none_or_done (cell w) = true → batch1 ≠ [] → batch2 ≠ [] →
  ∃ x1 x2,
    last batch1 = Some x1 ∧ last batch2 = Some x2 ∧
    cell (export batch1 w).2 = Some (FINISHED x1) ∧
    cell (export batch2 (export batch1 w).2).2 = Some (FINISHED x2) ∧
    (asserting_span_exporter_exit func_name span_args (export batch1 w).2).2
      = (export batch1 w).2 ∧
    cell (export batch2
            (asserting_span_exporter_exit func_name span_args
               (export batch1 w).2).2).2
      = Some (FINISHED x2).
Proof.
  intros Hg H1 H2.
  destruct (last_nonempty batch1 H1) as [x1 Hl1].
  destruct (last_nonempty batch2 H2) as [x2 Hl2].
  exists x1, x2. rewrite exit_state.
  rewrite (export_stores batch1 w x1 Hg Hl1). cbn [snd].
  rewrite (export_stores batch2 (put_top_span (Some (FINISHED x1)) w) x2);
    [done | reflexivity | done].
Qed.

Lemma second_export_overwrites_witness :
  ∃ x1 x2,
    last [1%positive] = Some x1 ∧ last [2%positive] = Some x2 ∧
    cell (export [1%positive] fresh_world).2 = Some (FINISHED x1) ∧
    cell (export [2%positive] (export [1%positive] fresh_world).2).2
      = Some (FINISHED x2) ∧
    (asserting_span_exporter_exit "first" ["x"%string]
       (export [1%positive] fresh_world).2).2
      = (export [1%positive] fresh_world).2 ∧
    cell (export [2%positive]
            (asserting_span_exporter_exit "first" ["x"%string]
               (export [1%positive] fresh_world).2).2).2
      = Some (FINISHED x2).
Proof.
  apply (second_export_overwrites fresh_world [1%positive] [2%positive]
           "first" ["x"%string]);
    [reflexivity | discriminate | discriminate].
Defined.

(** C2: an export of a non-empty batch into an empty cell leaves in the cell
    a completed future whose result is the last element of the batch. *)
Theorem export_into_empty_cell (spans : list span_ref) (w : World) :
  spans ≠ [] → cell w = None →
  ∃ x f,
    last spans = Some x ∧
    cell (export spans w).2 = Some f ∧
    Future_done f = true ∧
    Future_result f 5 = Returns x.
Proof.
  intros Hne Hc. destruct (last_nonempty spans Hne) as [x Hl].
  exists x, (FINISHED x).
  rewrite (export_stores spans w x); [done | by rewrite Hc | done].
Qed.

Lemma export_into_empty_cell_witness :
  ∃ x f,
    last [1%positive; 2%positive] = Some x ∧
    cell (export [1%positive; 2%positive] fresh_world).2 = Some f ∧
    Future_done f = true ∧
    Future_result f 5 = Returns x.
Proof.
  apply (export_into_empty_cell [1%positive; 2%positive] fresh_world);
    [discriminate | reflexivity].
Defined.

(** C3: once the [with] block has read the stored result, the next export
    of a non-empty batch overwrites the cell, which then holds a completed
    result equal to the last span of the new batch. *)
Theorem export_after_assertion_overwrites {A : Type} (body : M A)
    (w0 w : World) (a : A) (r : span_ref)
    (func_name : string) (span_args : list string) (batch : list span_ref) :
  body w0 = (Returns a, w) → cell w = Some (FINISHED r) → batch ≠ [] →
  let w1 := (asserting_span_exporter func_name span_args body w0).2 in
  ∃ x f,
    last batch = Some x ∧
    (export batch w1).1 = Returns SUCCESS ∧
    cell (export batch w1).2 = Some f ∧
    Future_done f = true ∧
    Future_result f 5 = Returns x.
Proof.
  intros Hb Hc Hne w1. subst w1.
  rewrite (with_body_returns _ _ _ _ _ _ Hb), exit_state.
  destruct (last_nonempty batch Hne) as [x Hl].
  exists x, (FINISHED x).
  rewrite (export_stores batch w x); [done | by rewrite Hc | done].
Qed.

Lemma export_after_assertion_overwrites_witness :
  let w1 := (asserting_span_exporter "first" ["x"%string]
               (export [1%positive]) fresh_world).2 in
  ∃ x f,
    last [2%positive] = Some x ∧
    (export [2%positive] w1).1 = Returns SUCCESS ∧
    cell (export [2%positive] w1).2 = Some f ∧
    Future_done f = true ∧
    Future_result f 5 = Returns x.
Proof.
  apply (export_after_assertion_overwrites (export [1%positive])
           fresh_world (export [1%positive] fresh_world).2 SUCCESS 1%positive
           "first" ["x"%string] [2%positive]);
    [reflexivity | reflexivity | discriminate].
Defined.

(** ** The assertion helper *)

(** C4: when the [with] block exits with a captured span in the cell, it
    raises [AssertionError] exactly when the span's name is not the expected
    name or some expected key is not a key of the span's attributes;
    otherwise it returns; and the outcome is the same for any captured span
    with the same name and the same attribute keys, whatever the values. *)
Theorem asserting_fails_iff {A : Type} (body : M A) (w0 w : World) (a : A)
    (r : span_ref) (func_name : string) (span_args : list string) :
  body w0 = (Returns a, w) → cell w = Some (FINISHED r) →
  let span := spans_store w r in
  let res := (asserting_span_exporter func_name span_args body w0).1 in
  (res = Raises AssertionError ↔
     name span ≠ func_name ∨
     ∃ param, param ∈ span_args ∧ param ∉ dom (attributes span)) ∧
  (res ≠ Raises AssertionError → res = Returns tt) ∧
  (∀ (body' : M A) (w0' w' : World) (a' : A) (r' : span_ref),
     body' w0' = (Returns a', w') → cell w' = Some (FINISHED r') →
     name (spans_store w' r') = name span →
     dom (attributes (spans_store w' r')) = dom (attributes span) →
     (asserting_span_exporter func_name span_args body' w0').1 = res).
Proof.
  intros Hb Hc span res. subst res.
  rewrite (with_body_returns _ _ _ _ _ _ Hb), (exit_finished _ _ _ r Hc).
  fold span. cbn [fst]. repeat split.
  - destruct (bool_decide (name span = func_name)) eqn:Hn; cbn [andb].
    + destruct (has_keys span span_args) eqn:Hk; [discriminate|].
      intros _. right. by apply has_keys_missing.
    + intros _. left. by apply bool_decide_eq_false in Hn.
  - intros [Hn|Hk].
    + by rewrite (bool_decide_eq_false_2 _ Hn).
    + rewrite (proj2 (has_keys_missing span span_args) Hk), andb_false_r. done.
  - destruct (_ && _); [done|]. intros H. by destruct H.
  - intros body' w0' w' a' r' Hb' Hc' Hname Hdom.
    rewrite (with_body_returns _ _ _ _ _ _ Hb'), (exit_finished _ _ _ r' Hc').
    cbn [fst]. unfold has_keys. rewrite Hname, Hdom. done.
Qed.

Lemma asserting_fails_iff_witness :
  let w := (export [1%positive] fresh_world).2 in
  let span := spans_store w 1%positive in
  let res := (asserting_span_exporter "first" ["y"%string]
                (export [1%positive]) fresh_world).1 in
  (res = Raises AssertionError ↔
     name span ≠ "first"%string ∨
     ∃ param, param ∈ ["y"%string] ∧ param ∉ dom (attributes span)) ∧
  (res ≠ Raises AssertionError → res = Returns tt) ∧
  (∀ (body' : M SpanExportResult) (w0' w' : World) (a' : SpanExportResult)
     (r' : span_ref),
     body' w0' = (Returns a', w') → cell w' = Some (FINISHED r') →
     name (spans_store w' r') = name span →
     dom (attributes (spans_store w' r')) = dom (attributes span) →
     (asserting_span_exporter "first" ["y"%string] body' w0').1 = res).
Proof.
  apply (asserting_fails_iff (export [1%positive]) fresh_world
           (export [1%positive] fresh_world).2 SUCCESS 1%positive
           "first" ["y"%string]);
    reflexivity.
Defined.

(** C5: when the [with] block exits and no span was ever captured (the cell
    is still [None]), the helper asserts nothing and raises nothing,
    whatever the expected name and keys. *)
Theorem asserting_passes_without_capture {A : Type} (body : M A)
    (w0 w : World) (a : A) (func_name : string) (span_args : list string) :
  body w0 = (Returns a, w) → cell w = None →
  asserting_span_exporter func_name span_args body w0 = (Returns tt, w).
Proof.
  intros Hb Hc. rewrite (with_body_returns _ _ _ _ _ _ Hb).
  by apply exit_none.
Qed.

Lemma asserting_passes_without_capture_witness :
  asserting_span_exporter "do_work" ["x"%string] (force_flush 30000) fresh_world
  = (Returns tt, fresh_world).
Proof.
  apply (asserting_passes_without_capture (force_flush 30000)
           fresh_world fresh_world true "do_work" ["x"%string]);
    reflexivity.
Defined.

(** ** Results and effects of the exporter's methods *)

(** C6: in every state, [export] of a non-empty batch raises nothing and
    returns [SUCCESS]; in every state and for every timeout, [force_flush]
    raises nothing and returns [True]. *)
Theorem export_and_flush_succeed (spans : list span_ref)
    (timeout_millis : Z) (w : World) :
  (spans ≠ [] → (export spans w).1 = Returns SUCCESS) ∧
  (force_flush timeout_millis w).1 = Returns true.
Proof.
  split; [|reflexivity].
  intros Hne. destruct (last_nonempty spans Hne) as [x Hl].
  destruct (none_or_done (cell w)) eqn:Hg.
  - by rewrite (export_stores spans w x Hg Hl).
  - by rewrite (export_skips spans w Hg).
Qed.

Lemma export_and_flush_succeed_witness :
  [2%positive; 1%positive] ≠ [] ∧
  (export [2%positive; 1%positive] fresh_world).1 = Returns SUCCESS ∧
  (force_flush default_timeout_millis fresh_world).1 = Returns true.
Proof.
  destruct (export_and_flush_succeed [2%positive; 1%positive]
              default_timeout_millis fresh_world) as [Hexport Hflush].
  split; [discriminate|]. split; [apply Hexport; discriminate | exact Hflush].
Defined.

(** C7: the state after [export] is the state before it with, at most, the
    capture cell replaced: [service_name] is the same, and the store of
    spans is the same, so every span of the batch is as it was. *)
Theorem export_changes_only_top_span (spans : list span_ref) (w : World) :
  let w' := (export spans w).2 in
  w' = put_top_span (cell w') w ∧
  service_name (exporter w') = service_name (exporter w) ∧
  spans_store w' = spans_store w.
Proof.
  assert (Hput : ∃ v, (export spans w).2 = put_top_span v w).
  { destruct (none_or_done (cell w)) eqn:Hg.
    - destruct (last spans) as [x|] eqn:Hl.
      + rewrite (export_stores spans w x Hg Hl). eauto.
      + apply last_None in Hl as ->. rewrite (export_empty w Hg). eauto.
    - rewrite (export_skips spans w Hg). exists (cell w).
      by destruct w as [store [sn top]]. }
  destruct Hput as [v Hv]. cbn zeta. rewrite Hv.
  by repeat split.
Qed.

(** C8: in a state whose cell is empty or holds a completed future,
    [export] of the empty sequence raises [IndexError] and so does not
    return [SUCCESS]. *)
Theorem export_empty_batch_raises (w : World) :
  cell w = None ∨ (∃ r, cell w = Some (FINISHED r)) →
  (export [] w).1 = Raises IndexError ∧
  (export [] w).1 ≠ Returns SUCCESS.
Proof.
  intros Hc. apply none_or_done_cases in Hc.
  rewrite (export_empty w Hc). by split.
Qed.

Lemma export_empty_batch_raises_witness :
  (export [] fresh_world).1 = Raises IndexError ∧
  (export [] fresh_world).1 ≠ Returns SUCCESS.
Proof.
  apply (export_empty_batch_raises fresh_world). left. reflexivity.
Defined.

(** ** The invariant of the capture cell *)

(** C9, as stated, fails: [export] of the empty sequence on a fresh exporter
    raises and leaves a pending future in the cell; the helper's read of it
    then runs out of time. *)
Lemma cell_completed_broken_by_empty_export :
  let w := (export [] fresh_world).2 in
  cell_completed fresh_world ∧
  ¬ cell_completed w ∧
  (asserting_span_exporter "first" [] (mret tt) w).1 = Raises TimeoutError.
Proof.
  cbn zeta. split; [|split].
  - intros f Hf. discriminate.
  - intros H. specialize (H PENDING eq_refl). discriminate.
  - reflexivity.
Qed.

(** C9, amended: every call with a non-empty batch ([export]), every
    [force_flush] and every run of the assertion helper keeps the invariant
    that a stored future is completed; so along any run of such calls from
    a state with the invariant, the invariant holds at the end and no call
    raises [TimeoutError]. *)
Theorem calls_keep_cell_completed (cs : list call) (w : World) :
  Forall nonempty_batch cs → cell_completed w →
  cell_completed (run_calls cs w).2 ∧
  Raises TimeoutError ∉ (run_calls cs w).1.
Proof.
  intros Hcs. revert w.
  induction Hcs as [|c cs Hc _ IH]; intros w Hinv.
  - split; [done | apply not_elem_of_nil].
  - cbn [run_calls].
    destruct (run_call_completed c w Hc Hinv) as [Hinv' Hres].
    destruct (run_call c w) as [o w'] eqn:Ec. cbn [fst snd] in Hinv', Hres.
    destruct (IH w' Hinv') as [Hinv'' Hrest].
    destruct (run_calls cs w') as [os w''] eqn:Ecs. cbn [fst snd] in *.
    split; [done|].
    intros Hin. apply elem_of_cons in Hin as [Heq|Hin]; [by subst | done].
Qed.

Lemma calls_keep_cell_completed_witness :
  let cs := [CallExport [1%positive]; CallAsserting "first" ["x"%string];
             CallForceFlush 30000; CallExport [1%positive; 2%positive];
             CallAsserting "other" []] in
  cell_completed (run_calls cs fresh_world).2 ∧
  Raises TimeoutError ∉ (run_calls cs fresh_world).1.
Proof.
  apply (calls_keep_cell_completed
           [CallExport [1%positive]; CallAsserting "first" ["x"%string];
            CallForceFlush 30000; CallExport [1%positive; 2%positive];
            CallAsserting "other" []] fresh_world).
  - repeat constructor; discriminate.
  - intros f Hf. discriminate.
Defined.

(** ** The constructor *)

(** C10: [out] and [formatter] are not stored: two exporters constructed
    with the same [service_name] and any values of these two parameters are
    the same object, so every run of calls on them gives the same results
    and ends in the same state, capture cell included. *)
Theorem init_ignores_out_and_formatter {IO1 IO2 : Type}
    (service_name : option string)
    (out1 : option IO1) (out2 : option IO2)
    (formatter1 formatter2 : option (ReadableSpan → string))
    (store : span_ref → ReadableSpan) (cs : list call) :
  __init__ service_name out1 formatter1 = __init__ service_name out2 formatter2 ∧
  run_calls cs {| spans_store := store;
                  exporter := __init__ service_name out1 formatter1 |}
  = run_calls cs {| spans_store := store;
                    exporter := __init__ service_name out2 formatter2 |}.
Proof. split; reflexivity. Qed.

(** ** Further properties of [export] *)

Lemma export_put (spans : list span_ref) (w : World) :
  ∃ v, export spans w = ((export spans w).1, put_top_span v w).
Proof.
  destruct (none_or_done (cell w)) eqn:Hg.
  - destruct (last spans) as [x|] eqn:Hl.
    + rewrite (export_stores spans w x Hg Hl). eauto.
    + apply last_None in Hl as ->. rewrite (export_empty w Hg). eauto.
  - rewrite (export_skips spans w Hg). exists (cell w).
    by destruct w as [store [sn top]].
Qed.

(** X1: [export] looks at the last span of the batch only: whatever spans
    come before it, the result and the state are those of exporting the
    last span alone. *)
Theorem export_reads_last_span_only (prefix : list span_ref) (x : span_ref)
    (w : World) :
  export (prefix ++ [x]) w = export [x] w.
Proof.
  destruct (none_or_done (cell w)) eqn:Hg.
  - assert (Hl : last (prefix ++ [x]) = Some x) by apply last_snoc.
    rewrite (export_stores (prefix ++ [x]) w x Hg Hl).
    by rewrite (export_stores [x] w x Hg eq_refl).
  - by rewrite !export_skips.
Qed.

(** X2: [export] raises exactly when the batch is empty and the cell is
    [None] or holds a completed future, and then it raises [IndexError];
    it raises nothing else. *)
Theorem export_raises_iff (spans : list span_ref) (w : World) :
  ((export spans w).1 = Raises IndexError ↔
     spans = [] ∧ none_or_done (cell w) = true) ∧
  (∀ e, (export spans w).1 = Raises e → e = IndexError).
Proof.
  destruct (none_or_done (cell w)) eqn:Hg.
  - destruct (last spans) as [x|] eqn:Hl.
    + rewrite (export_stores spans w x Hg Hl). cbn [fst].
      split; [split|]; [discriminate | | discriminate].
      intros [-> _]. discriminate.
    + apply last_None in Hl as ->. rewrite (export_empty w Hg). cbn [fst].
      split; [done|]. intros e He. by simplify_eq.
  - rewrite (export_skips spans w Hg). cbn [fst].
    split; [split|]; [discriminate | | discriminate].
    intros [_ ?]. discriminate.
Qed.

(** X3: exporting the same batch a second time leaves the state as the
    first export left it. *)
Theorem export_twice_same_state (spans : list span_ref) (w : World) :
  (export spans (export spans w).2).2 = (export spans w).2.
Proof.
  destruct (none_or_done (cell w)) eqn:Hg.
  - destruct (last spans) as [x|] eqn:Hl.
    + rewrite (export_stores spans w x Hg Hl). cbn [snd].
      by rewrite (export_stores spans (put_top_span (Some (FINISHED x)) w) x
                    eq_refl Hl).
    + apply last_None in Hl as ->. rewrite (export_empty w Hg). cbn [snd].
      by rewrite (export_skips [] (put_top_span (Some PENDING) w) eq_refl).
  - rewrite (export_skips spans w Hg). cbn [snd].
    by rewrite (export_skips spans w Hg).
Qed.

(** ** Further properties of runs of calls *)

Lemma run_calls_cons (c : call) (cs : list call) (w : World) :
  run_calls (c :: cs) w
  = ((run_call c w).1 :: (run_calls cs (run_call c w).2).1,
     (run_calls cs (run_call c w).2).2).
Proof.
  cbn [run_calls]. destruct (run_call c w) as [o w'].
  cbn [fst snd]. by destruct (run_calls cs w') as [os w''].
Qed.

Lemma run_calls_app_state (cs1 cs2 : list call) (w : World) :
  (run_calls (cs1 ++ cs2) w).2 = (run_calls cs2 (run_calls cs1 w).2).2.
Proof.
  revert w. induction cs1 as [|c cs1 IH]; intros w; [done|].
  rewrite <- app_comm_cons, !run_calls_cons. cbn [snd]. apply IH.
Qed.

Lemma run_calls_completed (cs : list call) (w : World) :
  Forall nonempty_batch cs → cell_completed w →
  cell_completed (run_calls cs w).2.
Proof.
  intros Hcs. revert w. induction Hcs as [|c cs Hc _ IH]; intros w Hinv; [done|].
  rewrite run_calls_cons. cbn [snd].
  apply IH. by apply run_call_completed.
Qed.

Lemma run_call_pending (c : call) (w : World) :
  cell w = Some PENDING → run_call c w = (pending_outcome c, w).
Proof.
  intros Hc. destruct c as [spans|t|func_name span_args].
  - rewrite run_call_export, export_skips; [done|]. by rewrite Hc.
  - apply run_call_force_flush.
  - by rewrite run_call_asserting, (exit_pending _ _ _ Hc).
Qed.

Lemma run_call_put (c : call) (w : World) :
  ∃ v, (run_call c w).2 = put_top_span v w.
Proof.
  assert (Hsame : w = put_top_span (cell w) w) by by destruct w as [? [? ?]].
  destruct c as [spans|t|func_name span_args].
  - rewrite run_call_export. destruct (export_put spans w) as [v ->].
    exists v. by destruct (export spans w).1.
  - rewrite run_call_force_flush. eauto.
  - rewrite run_call_asserting.
    pose proof (exit_state func_name span_args w) as Hs.
    destruct (asserting_span_exporter_exit func_name span_args w) as [[[]|e] w'];
      cbn [snd] in *; subst w'; eauto.
Qed.

(** X4: a pending future in the cell is never replaced or completed: along
    every run of calls the state stays as it is, every [export] returns
    [SUCCESS] without storing anything (an empty batch included), and every
    run of the assertion helper raises [TimeoutError]. *)
Theorem pending_cell_stays_pending (cs : list call) (w : World) :
  cell w = Some PENDING →
  run_calls cs w = (map pending_outcome cs, w).
Proof.
  intros Hc. induction cs as [|c cs IH]; [done|].
  rewrite run_calls_cons, (run_call_pending c w Hc). cbn [fst snd].
  by rewrite IH.
Qed.

Lemma pending_cell_stays_pending_witness :
  let w := (export [] fresh_world).2 in
  let cs := [CallExport [1%positive]; CallAsserting "first" [];
             CallExport []; CallForceFlush 30000] in
  run_calls cs w = (map pending_outcome cs, w).
Proof.
  apply (pending_cell_stays_pending
           [CallExport [1%positive]; CallAsserting "first" [];
            CallExport []; CallForceFlush 30000]
           (export [] fresh_world).2).
  reflexivity.
Defined.

(** X5: the last export wins: after any run of calls whose batches are not
    empty, from a state whose cell is empty or completed, an export of a
    non-empty batch leaves in the cell a completed future holding the last
    span of that batch. *)
Theorem last_export_wins (cs : list call) (batch : list span_ref) (w : World) :
  Forall nonempty_batch cs → batch ≠ [] → cell_completed w →
  ∃ x, last batch = Some x ∧
       cell (run_calls (cs ++ [CallExport batch]) w).2 = Some (FINISHED x).
Proof.
  intros Hcs Hne Hinv. destruct (last_nonempty batch Hne) as [x Hl].
  exists x. split; [done|].
  rewrite run_calls_app_state, run_calls_cons. cbn [run_calls snd].
  pose proof (run_calls_completed cs w Hcs Hinv) as Hinv'.
  apply cell_completed_guard in Hinv'.
  by rewrite run_call_export, (export_stores batch _ x Hinv' Hl).
Qed.

Lemma last_export_wins_witness :
  ∃ x, last [2%positive; 1%positive] = Some x ∧
       cell (run_calls ([CallExport [1%positive]; CallExport [2%positive];
                         CallAsserting "second" []]
                        ++ [CallExport [2%positive; 1%positive]])
               fresh_world).2 = Some (FINISHED x).
Proof.
  apply (last_export_wins
           [CallExport [1%positive]; CallExport [2%positive];
            CallAsserting "second" []]
           [2%positive; 1%positive] fresh_world).
  - repeat constructor; discriminate.
  - discriminate.
  - intros f Hf. discriminate.
Defined.

(** X6: no run of calls changes anything but the capture cell: at the end
    of every run, [service_name] and every span of the store are as they
    were at the start. *)
Theorem run_changes_only_top_span (cs : list call) (w : World) :
  let w' := (run_calls cs w).2 in
  w' = put_top_span (cell w') w ∧
  service_name (exporter w') = service_name (exporter w) ∧
  spans_store w' = spans_store w.
Proof.
  assert (Hput : ∃ v, (run_calls cs w).2 = put_top_span v w).
  { revert w. induction cs as [|c cs IH]; intros w.
    - exists (cell w). by destruct w as [? [? ?]].
    - rewrite run_calls_cons. cbn [snd].
      destruct (run_call_put c w) as [v ->].
      destruct (IH (put_top_span v w)) as [v' ->]. eauto. }
  destruct Hput as [v Hv]. cbn zeta. by rewrite Hv.
Qed.

(** ** Further properties of the assertion helper *)

Lemma has_keys_same_elements (span : ReadableSpan) (args1 args2 : list string) :
  (∀ param, param ∈ args1 ↔ param ∈ args2) →
  has_keys span args1 = has_keys span args2.
Proof.
  intros Hsame. apply Bool.eq_iff_eq_true. rewrite !has_keys_spec.
  split; intros H param Hin; apply H, Hsame, Hin.
Qed.

(** X7: the [with] block never writes the state: whether the body returns
    or raises and whether the assertions pass or fail, the state at the end
    is the state the body left; so the code after [yield], run again, gives
    the same outcome. *)
Theorem asserting_never_writes {A : Type} (body : M A)
    (func_name : string) (span_args : list string) (w : World) :
  (asserting_span_exporter func_name span_args body w).2 = (body w).2 ∧
  asserting_span_exporter_exit func_name span_args
    (asserting_span_exporter_exit func_name span_args w).2
  = asserting_span_exporter_exit func_name span_args w.
Proof.
  split.
  - destruct (body w) as [[a|e] w'] eqn:Hb.
    + by rewrite (with_body_returns _ _ _ _ _ _ Hb), exit_state.
    + by rewrite (with_body_raises _ _ _ _ _ _ Hb).
  - by rewrite exit_state.
Qed.

(** X8: the outcome of the helper depends on which keys are expected, not
    on their order or on how often each is given. *)
Theorem asserting_ignores_key_order (func_name : string)
    (args1 args2 : list string) (w : World) :
  (∀ param, param ∈ args1 ↔ param ∈ args2) →
  asserting_span_exporter_exit func_name args1 w
  = asserting_span_exporter_exit func_name args2 w.
Proof.
  intros Hsame. destruct (cell w) as [[|r]|] eqn:Hc.
  - by rewrite !(exit_pending _ _ _ Hc).
  - rewrite !(exit_finished _ _ _ r Hc).
    by rewrite (has_keys_same_elements _ args1 args2 Hsame).
  - by rewrite !(exit_none _ _ _ Hc).
Qed.

Lemma asserting_ignores_key_order_witness :
  asserting_span_exporter_exit "first" ["x"; "y"; "x"]%string
    (export [1%positive] fresh_world).2
  = asserting_span_exporter_exit "first" ["y"; "x"]%string
      (export [1%positive] fresh_world).2.
Proof.
  apply (asserting_ignores_key_order "first" ["x"; "y"; "x"]%string
           ["y"; "x"]%string (export [1%positive] fresh_world).2).
  intros param. rewrite !elem_of_cons, !elem_of_nil. tauto.
Defined.

(** X9: a [with] block around an export that stores its result (the cell is
    [None] or completed before it, the batch is not empty) returns exactly
    when the last span of the batch has the expected name and every
    expected key; the spans before the last one are not looked at. *)
Theorem asserting_around_export (spans : list span_ref) (x : span_ref)
    (func_name : string) (span_args : list string) (w : World) :
  none_or_done (cell w) = true → last spans = Some x →
  let res := (asserting_span_exporter func_name span_args (export spans) w).1 in
  (res = Returns tt ↔
     name (spans_store w x) = func_name ∧
     ∀ param, param ∈ span_args → param ∈ dom (attributes (spans_store w x))) ∧
  (res ≠ Returns tt → res = Raises AssertionError).
Proof.
  intros Hg Hl res. subst res.
  rewrite (with_body_returns _ _ _ _ _ _ (export_stores spans w x Hg Hl)).
  rewrite (exit_finished _ _ _ x (cell_put_top_span _ w)).
  cbn [fst put_top_span spans_store].
  destruct (bool_decide (name (spans_store w x) = func_name)) eqn:Hn;
    cbn [andb].
  - apply bool_decide_eq_true in Hn.
    destruct (has_keys (spans_store w x) span_args) eqn:Hk.
    + split; [|done]. split; [|done]. intros _. split; [done|].
      by apply has_keys_spec.
    + split; [|done]. split; [discriminate|]. intros [_ Hall].
      apply has_keys_spec in Hall. congruence.
  - apply bool_decide_eq_false in Hn.
    split; [|done]. split; [discriminate|]. by intros [? _].
Qed.

Lemma asserting_around_export_witness :
  let res := (asserting_span_exporter "first" ["x"%string]
                (export [2%positive; 1%positive]) fresh_world).1 in
  (res = Returns tt ↔
     name (spans_store fresh_world 1%positive) = "first"%string ∧
     ∀ param, param ∈ ["x"%string] →
       param ∈ dom (attributes (spans_store fresh_world 1%positive))) ∧
  (res ≠ Returns tt → res = Raises AssertionError).
Proof.
  apply (asserting_around_export [2%positive; 1%positive] 1%positive
           "first" ["x"%string] fresh_world);
    reflexivity.
Defined.

(** X10: the code after [yield] raises [TimeoutError] exactly when the cell
    holds a pending future, and it raises nothing but [TimeoutError] and
    [AssertionError]. *)
Theorem asserting_times_out_iff (func_name : string)
    (span_args : list string) (w : World) :
  ((asserting_span_exporter_exit func_name span_args w).1 = Raises TimeoutError
   ↔ cell w = Some PENDING) ∧
  (∀ e, (asserting_span_exporter_exit func_name span_args w).1 = Raises e →
        e = TimeoutError ∨ e = AssertionError).
Proof.
  destruct (cell w) as [[|r]|] eqn:Hc.
  - rewrite (exit_pending _ _ _ Hc). cbn [fst].
    split; [done|]. intros e He. left. by simplify_eq.
  - rewrite (exit_finished _ _ _ r Hc). cbn [fst].
    destruct (_ && _).
    + split; [split; discriminate | discriminate].
    + split; [split; discriminate |]. intros e He. right. by simplify_eq.
  - rewrite (exit_none _ _ _ Hc). cbn [fst].
    split; [split; discriminate | discriminate].
Qed.

(** ** The helpers that set up tracing *)

Lemma setup_tracing_log (name : pyvalue) (log : list sdk_call) :
  setup_tracing name log = (Done tt, log ++ tracing_calls name).
Proof.
  cbv [setup_tracing mbind Sdk_bind emit tracing_calls].
  by rewrite <- app_assoc.
Qed.

(** X11: without a keyword argument [name], applying the decorator raises
    [KeyError] for the key [name] before any call is made: tracing is not
    set up and the function is not run, whatever it is. *)
Theorem init_tracing_without_name {R : Type} (args : list pyvalue)
    (kwargs : gmap string pyvalue) (func : Sdk R) (log : list sdk_call) :
  kwargs !! "name"%string = None →
  init_tracing args kwargs func log = (Failed (KeyError "name"), log).
Proof.
  intros Hk. cbv [init_tracing mbind Sdk_bind getitem]. by rewrite Hk.
Qed.

Lemma init_tracing_without_name_witness :
  init_tracing [PyStr "app"] (delete "name"%string sample_kwargs) sample_func []
  = (Failed (KeyError "name"), []).
Proof.
  apply (init_tracing_without_name [PyStr "app"]
           (delete "name"%string sample_kwargs) sample_func []).
  reflexivity.
Defined.

(** X12: with a keyword argument [name], applying the decorator first makes
    the calls that register a provider for that name, then runs the function
    once; what the function returns is dropped and [None] is returned, and
    what the function raises is raised, with tracing already set up. *)
Theorem init_tracing_with_name {R : Type} (args : list pyvalue)
    (kwargs : gmap string pyvalue) (func : Sdk R) (log : list sdk_call)
    (name : pyvalue) :
  kwargs !! "name"%string = Some name →
  init_tracing args kwargs func log
  = (match (func (log ++ tracing_calls name)).1 with
     | Done _ => Done PyNone
     | Failed e => Failed e
     end,
     (func (log ++ tracing_calls name)).2).
Proof.
  intros Hk. cbv [init_tracing mbind Sdk_bind getitem]. rewrite Hk.
  rewrite setup_tracing_log.
  by destruct (func (log ++ tracing_calls name)) as [[r|e] log'].
Qed.

Lemma init_tracing_with_name_witness :
  init_tracing [] sample_kwargs sample_func []
  = (match (sample_func ([] ++ tracing_calls (PyStr "app"))).1 with
     | Done _ => Done PyNone
     | Failed e => Failed e
     end,
     (sample_func ([] ++ tracing_calls (PyStr "app"))).2).
Proof.
  apply (init_tracing_with_name [] sample_kwargs sample_func [] (PyStr "app")).
  reflexivity.
Defined.

(** X13: the decorator reads the keyword argument [name] and nothing else:
    positional arguments and other keyword arguments change neither what it
    returns or raises nor the calls it makes. *)
Theorem init_tracing_reads_name_only {R : Type} (args1 args2 : list pyvalue)
    (kwargs1 kwargs2 : gmap string pyvalue) (func : Sdk R)
    (log : list sdk_call) :
  kwargs1 !! "name"%string = kwargs2 !! "name"%string →
  init_tracing args1 kwargs1 func log = init_tracing args2 kwargs2 func log.
Proof.
  intros Hk. cbv [init_tracing mbind Sdk_bind getitem]. by rewrite Hk.
Qed.

Lemma init_tracing_reads_name_only_witness :
  init_tracing [PyInt 1; PyNone] sample_kwargs sample_func []
  = init_tracing [] {[ "name"%string := PyStr "app" ]} sample_func [].
Proof.
  apply (init_tracing_reads_name_only [PyInt 1; PyNone] []
           sample_kwargs {[ "name"%string := PyStr "app" ]} sample_func []).
  reflexivity.
Defined.

(** X14: [instrument_fastapi_app] always returns, and the last call it makes
    instruments the application; before that it makes the calls of
    [setup_tracing] when a name is given, and no call at all when the name
    is [None], so that the global provider is then left alone. *)
Theorem instrument_fastapi_app_calls (app : FastAPI) (name : pyvalue)
    (log : list sdk_call) :
  ∃ calls,
    instrument_fastapi_app app name log
    = (Done tt, log ++ calls ++ [instrument_app FastAPIInstrumentor app]) ∧
    (calls = [] ↔ name = PyNone) ∧
    (name ≠ PyNone → setup_tracing name log = (Done tt, log ++ calls)).
Proof.
  destruct name as [|s|i|b];
    [exists [] | exists (tracing_calls (PyStr s))
               | exists (tracing_calls (PyInt i))
               | exists (tracing_calls (PyBool b))];
    cbv [instrument_fastapi_app mbind Sdk_bind];
    rewrite ?setup_tracing_log; cbv [emit mret Sdk_ret];
    rewrite <- ?app_assoc;
    (split; [done|]); (split; [split; discriminate || done | done]).
Qed.
